(** * gRPC interceptors of framework-interceptor: a shallow embedding

    The development follows the two source files of the package:
    [trace_interceptor.go] (request identifiers, the metadata carrier, the
    server and client trace interceptors) and [metrics_interceptor.go].

    Effects are threaded through a [World]: the clock, the random source
    and an append-only list of the observable actions (span, log and
    metric calls).  The wrapped handler and invoker are arbitrary
    transformers of that world. *)

From Stdlib Require Import ZArith NArith Lia Ascii String List.
From Stdlib.Strings Require Import Byte.
From Stdlib Require Import DecimalString.
From stdpp Require Import base option list strings gmap.

(** ** Hexadecimal rendering ([encoding/hex], [fmt]) *)

Module Hex.

(** [hextable] of encoding/hex, also the [ldigits] table of fmt. *)
Definition hextable : string := "0123456789abcdef".

(** [hextable[i]]. An index past the table panics in Go; every caller
    below passes a 4-bit value, see [digit_in_table]. *)
Definition digit (i : N) : ascii :=
  match String.get (N.to_nat i) hextable with
  | Some c => c
  | None => Ascii.zero
  end.

(** hex.EncodeToString: two table characters per input byte,
    [hextable[v>>4]] then [hextable[v&0x0f]]. *)
Fixpoint EncodeToString (src : list byte) : string :=
  match src with
  | [] => EmptyString
  | v :: rest =>
      String (digit (N.shiftr (Byte.to_N v) 4))
        (String (digit (N.land (Byte.to_N v) 15)) (EncodeToString rest))
  end.

(** The digit loop of fmt's fmtInteger for base 16:
    [for u >= 16 { buf[i] = digits[u&0xF]; u >>= 4 }; buf[i] = digits[u]],
    writing right to left.  [fuel] bounds the iterations. *)
Fixpoint fmt_digits (fuel : nat) (u : N) (buf : string) : string :=
  match fuel with
  | O => buf
  | S fuel' =>
      if (16 <=? u)%N
      then fmt_digits fuel' (N.shiftr u 4) (String (digit (N.land u 15)) buf)
      else String (digit u) buf
  end.

(** Two's complement reading of a 64-bit pattern as an int64. *)
Definition int64 (z : Z) : Z := ((z + 2 ^ 63) mod 2 ^ 64 - 2 ^ 63)%Z.

(** fmt.Sprintf("%x", v) for an int64 [v]: the magnitude in lower-case
    hexadecimal without padding, preceded by [-] when [v] is negative.
    A uint64 has at most 16 hexadecimal digits. *)
Definition Sprintf_x (v : Z) : string :=
  let negative := (v <? 0)%Z in
  let u := Z.to_N (Z.abs v) in
  let s := fmt_digits 16 u EmptyString in
  if negative then String "-" s else s.

(** What a reader of an identifier checks. *)
Definition is_hex_digit (c : ascii) : bool :=
  let n := nat_of_ascii c in
  ((48 <=? n) && (n <=? 57) || (97 <=? n) && (n <=? 102))%nat.

Fixpoint is_hex (s : string) : bool :=
  match s with
  | EmptyString => true
  | String c s' => is_hex_digit c && is_hex s'
  end.

(** Value of a hexadecimal digit and of a digit string, most significant
    digit first; [None] on a character outside the table. *)
Definition digit_value (c : ascii) : option N :=
  let n := N_of_ascii c in
  if ((48 <=? n) && (n <=? 57))%N then Some (n - 48)%N
  else if ((97 <=? n) && (n <=? 102))%N then Some (n - 87)%N
  else None.

Fixpoint parse_digits (acc : N) (s : string) : option N :=
  match s with
  | EmptyString => Some acc
  | String c s' =>
      match digit_value c with
      | Some d => parse_digits (16 * acc + d)%N s'
      | None => None
      end
  end.

(** Reading back a signed hexadecimal numeral. *)
Definition parse_x (s : string) : option Z :=
  match s with
  | EmptyString => None
  | String c s' =>
      if Ascii.eqb c "-" then
        match s' with
        | EmptyString => None
        | _ => Z.opp <$> (Z.of_N <$> parse_digits 0 s')
        end
      else Z.of_N <$> parse_digits 0 s
  end.

End Hex.

(** ** gRPC status codes and errors ([codes], [status]) *)

(** codes.Code is a uint32; the first seventeen values are named. *)
Definition Code := N.

Definition codes_OK : Code := 0%N.
Definition codes_Unknown : Code := 2%N.

(** Code.String: the name of the code, [Code(n)] past the named ones. *)
Definition Code_String (c : Code) : string :=
  match c with
  | 0 => "OK"
  | 1 => "Canceled"
  | 2 => "Unknown"
  | 3 => "InvalidArgument"
  | 4 => "DeadlineExceeded"
  | 5 => "NotFound"
  | 6 => "AlreadyExists"
  | 7 => "PermissionDenied"
  | 8 => "ResourceExhausted"
  | 9 => "FailedPrecondition"
  | 10 => "Aborted"
  | 11 => "OutOfRange"
  | 12 => "Unimplemented"
  | 13 => "Internal"
  | 14 => "Unavailable"
  | 15 => "DataLoss"
  | 16 => "Unauthenticated"
  | _ => "Code(" +:+ NilZero.string_of_uint (N.to_uint c) +:+ ")"
  end%N.

(** A non-nil Go error value: one that carries a gRPC status (what
    status.Error builds), or any other error.  A nil error is [None]. *)
Inductive error : Type :=
  | StatusError (c : Code) (msg : string)
  | PlainError (msg : string).

(** status.Code: OK for nil, the carried code for a status error,
    Unknown for every other error. *)
Definition status_Code (err : option error) : Code :=
  match err with
  | None => codes_OK
  | Some (StatusError c _) => c
  | Some (PlainError _) => codes_Unknown
  end.

(** ** Header collections ([metadata.MD]) *)

(** metadata.MD is [map[string][]string].  A Go map value is either nil
    or an allocated table; reads treat nil as empty, writes to nil panic. *)
Inductive MD : Type :=
  | MDnil
  | MDmap (m : gmap string (list string)).

Definition MD_entries (md : MD) : gmap string (list string) :=
  match md with
  | MDnil => ∅
  | MDmap m => m
  end.

Definition MD_is_nil (md : MD) : bool :=
  match md with
  | MDnil => true
  | MDmap _ => false
  end.

(** ** Call contexts and the observable actions *)

(** The slots of a context.Context the interceptors reach, through
    metadata (incoming, outgoing), framework-trace (the active span's
    identifiers, empty when there is none) and framework-log. *)
Record Context : Type := mkContext {
  incoming : option MD;
  outgoing : option MD;
  span_trace_id : string;
  span_span_id : string;
  log_trace_id : string;
  log_request_id : string
}.

(** A span handle. *)
Definition Span := nat.

(** zap fields. *)
Inductive Field : Type :=
  | zap_String (key val : string)
  | zap_Error (err : error).

(** log.FromContext: the logger is determined by the context. *)
Inductive Logger : Type :=
  | FromContext (ctx : Context).

(** Names of the two metric vectors of framework-metrics. *)
Inductive Metric : Type :=
  | GRPCRequestTotal
  | GRPCRequestDuration.

(** What an interceptor does to its collaborators, in program order. *)
Inductive Event : Type :=
  | SpanSetAttributes (sp : Span) (kvs : list (string * string))
  | SpanRecordError (sp : Span) (err : error)
  | SpanEnd (sp : Span)
  | LoggerInfo (lg : Logger) (msg : string) (fields : list Field)
  | LoggerError (lg : Logger) (msg : string) (fields : list Field)
  | CounterInc (vec : Metric) (labels : list string)
  | HistogramObserve (vec : Metric) (labels : list string) (nanos : Z).

(** The world a call runs in. [clock] is the nanosecond reading of
    time.Now(); [rand_fails] tells whether crypto/rand's Read returns an
    error; [rand_stream] is what it delivers otherwise. *)
Record World : Type := mkWorld {
  clock : Z;
  rand_fails : bool;
  rand_stream : nat → byte;
  events : list Event
}.

(** Computations in a world. *)
Definition M (A : Type) : Type := World → A * World.

#[global] Instance M_ret : MRet M := λ A a w, (a, w).
#[global] Instance M_bind : MBind M := λ A B f m w, let '(a, w') := m w in f a w'.

Definition emit (e : Event) : M unit :=
  λ w, (tt, mkWorld (clock w) (rand_fails w) (rand_stream w) (events w ++ [e])).

(** The world once further actions were recorded. *)
Definition World_after (w : World) (evs : list Event) : World :=
  mkWorld (clock w) (rand_fails w) (rand_stream w) (events w ++ evs).

(** time.Now() *)
Definition time_Now : M Z := λ w, (clock w, w).

(** Time.UnixNano: an int64. *)
Definition UnixNano (t : Z) : Z := Hex.int64 t.

(** rand.Read(b) for [len(b) = n]: an error, or [b] filled entirely. *)
Definition rand_Read (n : nat) : M (option (list byte)) :=
  λ w, if rand_fails w then (None, w)
       else (Some (rand_stream w <$> seq 0 n),
             mkWorld (clock w) (rand_fails w) (λ i, rand_stream w (n + i)) (events w)).

(** generateRequestID (trace_interceptor.go, 187-194) *)
Definition generateRequestID : M string :=
  b ← rand_Read 16;
  match b with
  | None => now ← time_Now; mret (Hex.Sprintf_x (UnixNano now))
  | Some b => mret (Hex.EncodeToString b)
  end.

(** The identifier shape the tests ask for: 32 hexadecimal characters. *)
Definition is_request_id (s : string) : bool :=
  (String.length s =? 32)%nat && Hex.is_hex s.

(** metadata.FromIncomingContext, FromOutgoingContext, NewOutgoingContext *)
Definition FromIncomingContext (ctx : Context) : MD * bool :=
  match incoming ctx with
  | Some md => (md, true)
  | None => (MDnil, false)
  end.

Definition FromOutgoingContext (ctx : Context) : MD * bool :=
  match outgoing ctx with
  | Some md => (md, true)
  | None => (MDnil, false)
  end.

Definition NewOutgoingContext (ctx : Context) (md : MD) : Context :=
  mkContext (incoming ctx) (Some md) (span_trace_id ctx) (span_span_id ctx)
    (log_trace_id ctx) (log_request_id ctx).

(** Modelled from the spec: framework-trace's context readers are not
    part of the sources; they give the identifiers of the active span
    context. *)
Definition trace_TraceIDFromContext (ctx : Context) : string := span_trace_id ctx.

Definition trace_SpanIDFromContext (ctx : Context) : string := span_span_id ctx.

(** Modelled from the spec: framework-log's context helpers are not part
    of the sources; the call context carries the trace and request
    identifiers as key-value entries, stored by the first pair and read
    back by the second. *)
Definition log_ContextWithTraceID (ctx : Context) (traceID : string) : Context :=
  mkContext (incoming ctx) (outgoing ctx) (span_trace_id ctx) (span_span_id ctx)
    traceID (log_request_id ctx).

Definition log_ContextWithRequestID (ctx : Context) (requestID : string) : Context :=
  mkContext (incoming ctx) (outgoing ctx) (span_trace_id ctx) (span_span_id ctx)
    (log_trace_id ctx) requestID.

Definition log_TraceIDFromContext (ctx : Context) : string := log_trace_id ctx.

Definition log_RequestIDFromContext (ctx : Context) : string := log_request_id ctx.

(** OpenTelemetry's propagation.TextMapCarrier interface.  [carrier_Set]
    is [None] when the call panics. *)
Class TextMapCarrier (C : Type) : Type := {
  carrier_Get : C → string → string;
  carrier_Set : C → string → string → option C;
  carrier_Keys : C → list string
}.

(** grpc.UnaryServerInfo; only the method name is read. *)
Record UnaryServerInfo : Type := mkInfo { FullMethod : string }.

(** What the server trace interceptor has settled when it calls the
    handler: the context it passes on, its span, and the two identifiers. *)
Record Started : Type := mkStarted {
  st_ctx : Context;
  st_span : Span;
  st_traceID : string;
  st_requestID : string
}.

Section Interceptors.

(** strings.ToLower *)
Variable ToLower : string → string.

(** Values of type [interface{}]: requests, replies, connections, options. *)
Variable Any : Type.

(** MD.Get: the values stored under the lower-cased key; reading a
    missing key, or a nil map, gives the nil slice. *)
Definition MD_Get (md : MD) (k : string) : list string :=
  let k := ToLower k in
  default [] (MD_entries md !! k).

(** MD.Set: nothing without values; otherwise [md[lower(k)] = vals],
    which panics on a nil map. *)
Definition MD_Set (md : MD) (k : string) (vals : list string) : option MD :=
  if (length vals =? 0)%nat then Some md
  else
    let k := ToLower k in
    match md with
    | MDnil => None
    | MDmap m => Some (MDmap (<[k := vals]> m))
    end.

(** type metadataCarrier metadata.MD (trace_interceptor.go, 117-137) *)
Definition metadataCarrier : Type := MD.

Definition metadataCarrier_Get (m : metadataCarrier) (key : string) : string :=
  let values := MD_Get m key in
  match values with
  | v :: _ => v
  | [] => ""
  end.

Definition metadataCarrier_Set (m : metadataCarrier) (key value : string)
  : option metadataCarrier :=
  MD_Set m key [value].

(** [for k := range m]: every key once.  Go fixes no iteration order;
    this is one of them, and the statements below hold for each. *)
Definition metadataCarrier_Keys (m : metadataCarrier) : list string :=
  let keys := [] in
  keys ++ (map_to_list (MD_entries m)).*1.

#[local] Instance metadataCarrier_TextMapCarrier : TextMapCarrier metadataCarrier := {
  carrier_Get := metadataCarrier_Get;
  carrier_Set := metadataCarrier_Set;
  carrier_Keys := metadataCarrier_Keys
}.

(** The global propagator of OpenTelemetry and framework-trace's
    StartSpan: arbitrary. The propagator reaches the headers through a
    carrier only; Inject gives the carrier as its writes left it. *)
Variable propagator_Extract : ∀ C : Type, TextMapCarrier C → Context → C → Context.
Variable propagator_Inject : ∀ C : Type, TextMapCarrier C → Context → C → C.
Variable trace_StartSpan : Context → string → M (Context * Span).

Definition UnaryHandler : Type := Context → Any → M (Any * option error).

Definition UnaryInvoker : Type :=
  Context → string → Any → Any → Any → list Any → M (option error).

(** MetricsUnaryInterceptor (metrics_interceptor.go, 31-50).  The
    observed duration is kept in nanoseconds. *)
Definition MetricsUnaryInterceptor (ctx : Context) (req : Any)
    (info : UnaryServerInfo) (handler : UnaryHandler) : M (Any * option error) :=
  start ← time_Now;
  '(resp, err) ← handler ctx req;
  now ← time_Now;
  let duration := (now - start)%Z in
  let code := Code_String (status_Code err) in
  let code := if err is None then Code_String codes_OK else code in
  emit (CounterInc GRPCRequestTotal [FullMethod info; code]);;
  emit (HistogramObserve GRPCRequestDuration [FullMethod info; code] duration);;
  mret (resp, err).

(** trace_interceptor.go, 53-60: the first value of a header, when the
    metadata is there. *)
Definition first_header (ok : bool) (md : MD) (key : string) : string :=
  if ok && negb (MD_is_nil md) then
    match MD_Get md key with
    | v :: _ => v
    | [] => ""
    end
  else "".

(** The values of an inbound header; none without inbound metadata. *)
Definition inbound (ctx : Context) (key : string) : list string :=
  match incoming ctx with
  | Some md => MD_Get md key
  | None => []
  end.

(** trace_interceptor.go, 41-45: the context after extraction. *)
Definition extracted (ctx : Context) : Context :=
  let '(md, ok) := FromIncomingContext ctx in
  if ok then propagator_Extract _ _ ctx (md : metadataCarrier) else ctx.

(** trace_interceptor.go, 62-76: the identifiers the server trace
    interceptor settles on, and the context it hands to the handler, given
    what StartSpan returned. *)
Definition derived_traceID (ctx ctx1 : Context) : string :=
  let h := hd "" (inbound ctx "x-trace-id") in
  if String.eqb h "" then trace_TraceIDFromContext ctx1 else h.

Definition derived_requestID (ctx : Context) (ws : World) : string * World :=
  let h := hd "" (inbound ctx "x-request-id") in
  if String.eqb h "" then generateRequestID ws else (h, ws).

Definition handler_ctx (ctx1 : Context) (traceID requestID : string) : Context :=
  let ctx2 :=
    if negb (String.eqb traceID "") then log_ContextWithTraceID ctx1 traceID else ctx1 in
  if negb (String.eqb requestID "") then log_ContextWithRequestID ctx2 requestID
  else ctx2.

(** trace_interceptor.go, 79-86: the start event. *)
Definition log_request_started (ctx : Context) (info : UnaryServerInfo)
    (traceID requestID : string) : M unit :=
  if negb (String.eqb traceID "") || negb (String.eqb requestID "")
  then
    let logger := FromContext ctx in
    emit (LoggerInfo logger "gRPC request started"
            [zap_String "method" (FullMethod info);
             zap_String "trace_id" traceID;
             zap_String "span_id" (trace_SpanIDFromContext ctx)])
  else mret tt.

(** TraceUnaryInterceptor up to the call of the handler
    (trace_interceptor.go, 40-86). *)
Definition trace_started (ctx : Context) (info : UnaryServerInfo) : M Started :=
  let '(md, ok) := FromIncomingContext ctx in
  let ctx := if ok then propagator_Extract _ _ ctx (md : metadataCarrier) else ctx in
  '(ctx, span) ← trace_StartSpan ctx (FullMethod info);
  let traceID := first_header ok md "x-trace-id" in
  let requestID := first_header ok md "x-request-id" in
  let traceID :=
    if String.eqb traceID "" then trace_TraceIDFromContext ctx else traceID in
  requestID ← (if String.eqb requestID "" then generateRequestID else mret requestID);
  let ctx :=
    if negb (String.eqb traceID "") then log_ContextWithTraceID ctx traceID else ctx in
  let ctx :=
    if negb (String.eqb requestID "") then log_ContextWithRequestID ctx requestID
    else ctx in
  log_request_started ctx info traceID requestID;;
  mret (mkStarted ctx span traceID requestID).

(** TraceUnaryInterceptor after the handler returned
    (trace_interceptor.go, 91-110, and the deferred [span.End()]). *)
Definition trace_finished (ctx : Context) (span : Span) (info : UnaryServerInfo)
    (err : option error) : M unit :=
  emit (SpanSetAttributes span
          [("rpc.method", FullMethod info);
           ("rpc.status_code", Code_String (status_Code err))]);;
  (if negb (String.eqb (log_TraceIDFromContext ctx) "")
      || negb (String.eqb (log_RequestIDFromContext ctx) "")
   then
     match err with
     | Some e =>
         emit (LoggerError (FromContext ctx) "gRPC request failed"
                 [zap_String "method" (FullMethod info); zap_Error e])
     | None =>
         emit (LoggerInfo (FromContext ctx) "gRPC request completed"
                 [zap_String "method" (FullMethod info)])
     end
   else mret tt);;
  emit (SpanEnd span).

(** TraceUnaryInterceptor (trace_interceptor.go, 38-114) *)
Definition TraceUnaryInterceptor (ctx : Context) (req : Any)
    (info : UnaryServerInfo) (handler : UnaryHandler) : M (Any * option error) :=
  st ← trace_started ctx info;
  '(resp, err) ← handler (st_ctx st) req;
  trace_finished (st_ctx st) (st_span st) info err;;
  mret (resp, err).

(** trace_interceptor.go, 149-159: the context the invoker receives. *)
Definition outbound (ctx : Context) : Context :=
  let '(md, ok) := FromOutgoingContext ctx in
  let md := if negb ok then MDmap ∅ else md in
  NewOutgoingContext ctx (propagator_Inject _ _ ctx (md : metadataCarrier)).

(** TraceUnaryClientInterceptor (trace_interceptor.go, 141-184).  The
    carrier and [md] are one map: what Inject wrote is what the outgoing
    context receives. *)
Definition TraceUnaryClientInterceptor (ctx : Context) (method : string)
    (req reply cc : Any) (invoker : UnaryInvoker) (opts : list Any)
    : M (option error) :=
  '(ctx, span) ← trace_StartSpan ctx method;
  let '(md, ok) := FromOutgoingContext ctx in
  let md := if negb ok then MDmap ∅ else md in
  let carrier : metadataCarrier := md in
  let md := propagator_Inject _ _ ctx carrier in
  let ctx := NewOutgoingContext ctx md in
  emit (SpanSetAttributes span [("rpc.method", method); ("rpc.system", "grpc")]);;
  err ← invoker ctx method req reply cc opts;
  match err with
  | Some e =>
      emit (SpanSetAttributes span
              [("rpc.status_code", Code_String (status_Code err))]);;
      emit (SpanRecordError span e)
  | None =>
      emit (SpanSetAttributes span [("rpc.status_code", "OK")])
  end;;
  emit (SpanEnd span);;
  mret err.

End Interceptors.

(** ** Concrete collaborators, for running the interceptors *)

Module Sample.

Definition lower_ascii (c : ascii) : ascii :=
  let n := nat_of_ascii c in
  if ((65 <=? n) && (n <=? 90))%nat then ascii_of_nat (n + 32) else c.

(** strings.ToLower on ASCII text. *)
Fixpoint ToLower (s : string) : string :=
  match s with
  | EmptyString => EmptyString
  | String c s' => String (lower_ascii c) (ToLower s')
  end.

(** A propagator that carries the trace identifier in one header. *)
Definition Extract (C : Type) (carrier : TextMapCarrier C) (ctx : Context) (c : C)
  : Context :=
  mkContext (incoming ctx) (outgoing ctx) (carrier_Get c "traceparent")
    (span_span_id ctx) (log_trace_id ctx) (log_request_id ctx).

Definition Inject (C : Type) (carrier : TextMapCarrier C) (ctx : Context) (c : C) : C :=
  default c (carrier_Set c "traceparent" (span_trace_id ctx)).

(** A tracer that numbers its spans by the actions seen so far. *)
Definition StartSpan (ctx : Context) (name : string) : M (Context * Span) :=
  λ w, (mkContext (incoming ctx) (outgoing ctx) (span_trace_id ctx) name
          (log_trace_id ctx) (log_request_id ctx), length (events w), w).

Definition background : Context := mkContext None None "" "" "" "".

Definition info : UnaryServerInfo := mkInfo "/test.Service/TestMethod".

(** 2023-11-14T22:13:20Z in nanoseconds. *)
Definition epoch : Z := 1700000000000000000%Z.

Definition world (fails : bool) : World :=
  mkWorld epoch fails (λ i, default Byte.x00 (Byte.of_nat (17 * i))) [].

(** The two handlers of the tests: one succeeds, one fails with
    context.DeadlineExceeded (no gRPC status). *)
Definition ok_handler : UnaryHandler string :=
  λ _ _ w, ("response", None, w).

Definition failing_handler : UnaryHandler string :=
  λ _ _ w, ("", Some (PlainError "context deadline exceeded"), w).

Definition ok_invoker : UnaryInvoker string := λ _ _ _ _ _ _ w, (None, w).

Definition failing_invoker : UnaryInvoker string :=
  λ _ _ _ _ _ _ w, (Some (StatusError 14%N "unavailable"), w).

Definition headers : MD :=
  MDmap (<["x-trace-id" := ["trace-1"]]> (<["x-request-id" := ["req-1"]]> ∅)).

Definition with_headers : Context := mkContext (Some headers) None "" "" "" "".

(** The collections of the package's carrier tests, as metadata.New
    builds them: one value per key. *)
Definition get_test_md : MD :=
  MDmap (<["x-test-key" := ["test-value"]]>
         (<["x-another" := ["another-value"]]> (<["x-empty-key" := [""]]> ∅))).

Definition keys_test_md : MD :=
  MDmap (<["key1" := ["value1"]]> (<["key2" := ["value2"]]> (<["key3" := ["value3"]]> ∅))).

Definition Metrics := MetricsUnaryInterceptor string.

Definition Trace := TraceUnaryInterceptor ToLower string Extract StartSpan.

Definition Client := TraceUnaryClientInterceptor ToLower string Inject StartSpan.

End Sample.

(** ** Clients of the interceptors and of the carrier *)

(** Reading an encoded identifier back: two table characters per byte,
    [None] on an odd length or a character outside the table. *)
Fixpoint decode_hex (s : string) : option (list byte) :=
  match s with
  | EmptyString => Some []
  | String _ EmptyString => None
  | String a (String b rest) =>
      match Hex.digit_value a, Hex.digit_value b, decode_hex rest with
      | Some h, Some l, Some bs =>
          match Byte.of_N (16 * h + l) with
          | Some v => Some (v :: bs)
          | None => None
          end
      | _, _, _ => None
      end
  end.

(** A propagator's way with a carrier: one [Set] per field, in order;
    [None] as soon as a [Set] panics. *)
Definition carrier_write {C : Type} (carrier : TextMapCarrier C) (c : C)
    (fields : list (string * string)) : option C :=
  foldl (λ acc kv, acc ≫= λ c', carrier_Set c' kv.1 kv.2) (Some c) fields.

(** The Inject of a propagator that writes the fields it reads off the
    context; a panicking write has no carrier to give back. *)
Definition inject_fields (fields : Context → list (string * string))
    (C : Type) (carrier : TextMapCarrier C) (ctx : Context) (c : C) : C :=
  default c (carrier_write carrier c (fields ctx)).

(** The last value written under a key, keys compared as the collection
    compares them. *)
Definition last_written (ToLower : string → string) (key : string)
    (fields : list (string * string)) : option string :=
  (λ r, r.2.2) <$> list_find (λ kv, ToLower kv.1 = ToLower key) (reverse fields).

(** grpc.UnaryServerInterceptor, and the chaining of two of them as the
    server does it: the inner interceptor is the handler of the outer. *)
Definition UnaryServerInterceptor (Any : Type) : Type :=
  Context → Any → UnaryServerInfo → UnaryHandler Any → M (Any * option error).

Definition chain {Any : Type} (outer inner : UnaryServerInterceptor Any)
  : UnaryServerInterceptor Any :=
  λ ctx req info handler,
    outer ctx req info (λ ctx' req', inner ctx' req' info handler).

(** * Properties *)

(** ** The hexadecimal tables *)

(** A goal over a number below sixteen is settled digit by digit. *)
Ltac each_digit n H :=
  do 16 (destruct n as [| n]; [ vm_compute; try reflexivity; try lia; eauto |]);
  exfalso; lia.

Lemma N_below_16 (i : N) : (i < 16)%N → ∃ n : nat, n < 16 ∧ i = N.of_nat n.
Proof. intros H. exists (N.to_nat i). split; lia. Qed.

Lemma digit_in_table (i : N) : (i < 16)%N → Hex.is_hex_digit (Hex.digit i) = true.
Proof.
  intros H. destruct (N_below_16 i H) as (n & Hn & ->). each_digit n Hn.
Qed.

Lemma digit_value_digit (i : N) : (i < 16)%N → Hex.digit_value (Hex.digit i) = Some i.
Proof.
  intros H. destruct (N_below_16 i H) as (n & Hn & ->). each_digit n Hn.
Qed.

Lemma high_nibble_bound (v : byte) : (N.shiftr (Byte.to_N v) 4 < 16)%N.
Proof.
  pose proof (Byte.to_N_bounded v) as Hb.
  rewrite N.shiftr_div_pow2. change (2 ^ 4)%N with 16%N.
  apply N.Div0.div_lt_upper_bound. lia.
Qed.

Lemma low_nibble_bound (v : byte) : (N.land (Byte.to_N v) 15 < 16)%N.
Proof.
  change 15%N with (N.ones 4). rewrite N.land_ones.
  change (2 ^ 4)%N with 16%N. apply N.mod_lt. lia.
Qed.

Lemma EncodeToString_length (src : list byte) :
  String.length (Hex.EncodeToString src) = 2 * length src.
Proof.
  induction src as [| v rest IH]; simpl; [reflexivity |]. rewrite IH. lia.
Qed.

Lemma EncodeToString_is_hex (src : list byte) :
  Hex.is_hex (Hex.EncodeToString src) = true.
Proof.
  induction src as [| v rest IH]; simpl; [reflexivity |].
  rewrite (digit_in_table _ (high_nibble_bound v)).
  rewrite (digit_in_table _ (low_nibble_bound v)). exact IH.
Qed.

Lemma string_app_nil (s : string) : EmptyString +:+ s = s.
Proof. reflexivity. Qed.

Lemma string_app_cons (c : ascii) (s1 s2 : string) :
  String c s1 +:+ s2 = String c (s1 +:+ s2).
Proof. reflexivity. Qed.

Lemma string_app_assoc (s1 s2 s3 : string) : (s1 +:+ s2) +:+ s3 = s1 +:+ (s2 +:+ s3).
Proof.
  induction s1 as [| c s1 IH]; [reflexivity |].
  rewrite !string_app_cons. f_equal. exact IH.
Qed.

Lemma string_app_length (s1 s2 : string) :
  String.length (s1 +:+ s2) = (String.length s1 + String.length s2)%nat.
Proof.
  induction s1 as [| c s1 IH]; [reflexivity |].
  rewrite string_app_cons. cbn [String.length]. rewrite IH. reflexivity.
Qed.

Lemma fmt_digits_S (fuel : nat) (u : N) (buf : string) :
  Hex.fmt_digits (S fuel) u buf =
  if (16 <=? u)%N
  then Hex.fmt_digits fuel (N.shiftr u 4) (String (Hex.digit (N.land u 15)) buf)
  else String (Hex.digit u) buf.
Proof. reflexivity. Qed.

(** Every turn of the digit loop writes one character, so the output has
    between one character and as many as the turns allowed. *)
Lemma fmt_digits_length (fuel : nat) (u : N) (buf : string) :
  (String.length buf + 1 ≤ String.length (Hex.fmt_digits (S fuel) u buf))%nat
  ∧ (String.length (Hex.fmt_digits (S fuel) u buf) ≤ String.length buf + S fuel)%nat.
Proof.
  revert u buf. induction fuel as [| fuel IH]; intros u buf;
    rewrite fmt_digits_S; destruct (16 <=? u)%N.
  - cbn [Hex.fmt_digits String.length]. lia.
  - cbn [String.length]. lia.
  - specialize (IH (N.shiftr u 4) (String (Hex.digit (N.land u 15)) buf)).
    cbn [String.length] in IH. lia.
  - cbn [String.length]. lia.
Qed.

Lemma parse_digits_app (s1 s2 : string) (acc : N) :
  Hex.parse_digits acc (s1 +:+ s2) =
  Hex.parse_digits acc s1 ≫= λ a, Hex.parse_digits a s2.
Proof.
  revert acc. induction s1 as [| c s1 IH]; intros acc.
  - rewrite string_app_nil. reflexivity.
  - rewrite string_app_cons. cbn [Hex.parse_digits].
    destruct (Hex.digit_value c); [apply IH | reflexivity].
Qed.

Lemma parse_one_digit (acc i : N) :
  (i < 16)%N →
  Hex.parse_digits acc (String (Hex.digit i) EmptyString) = Some (16 * acc + i)%N.
Proof. intros H. cbn [Hex.parse_digits]. rewrite digit_value_digit by exact H. reflexivity. Qed.

(** With enough turns for the magnitude the loop drops no digit: what it
    writes in front of [buf] reads back as [u]. *)
Lemma fmt_digits_parse (fuel : nat) :
  ∀ (u : N) (buf : string), (u < 16 ^ N.of_nat (S fuel))%N →
    ∃ pre : string,
      Hex.fmt_digits (S fuel) u buf = pre +:+ buf
      ∧ (1 ≤ String.length pre)%nat
      ∧ ∀ acc, Hex.parse_digits acc pre
               = Some (acc * 16 ^ N.of_nat (String.length pre) + u)%N.
Proof.
  induction fuel as [| fuel IH]; intros u buf Hu; rewrite fmt_digits_S;
    destruct (16 <=? u)%N eqn:E.
  - apply N.leb_le in E. change (16 ^ N.of_nat 1)%N with 16%N in Hu. lia.
  - apply N.leb_gt in E. exists (String (Hex.digit u) EmptyString).
    split; [reflexivity |]. split; [cbn; lia |]. intros acc.
    rewrite parse_one_digit by exact E. f_equal. cbn [String.length]. lia.
  - assert (Hq : (N.shiftr u 4 < 16 ^ N.of_nat (S fuel))%N).
    { rewrite N.shiftr_div_pow2. change (2 ^ 4)%N with 16%N.
      apply N.Div0.div_lt_upper_bound.
      replace (N.of_nat (S (S fuel))) with (N.succ (N.of_nat (S fuel))) in Hu by lia.
      rewrite N.pow_succ_r' in Hu. exact Hu. }
    destruct (IH (N.shiftr u 4) (String (Hex.digit (N.land u 15)) buf) Hq)
      as (pre & Heq & Hlen & Hval).
    exists (pre +:+ String (Hex.digit (N.land u 15)) EmptyString).
    assert (Hlow : (N.land u 15 < 16)%N).
    { change 15%N with (N.ones 4). rewrite N.land_ones.
      change (2 ^ 4)%N with 16%N. apply N.mod_lt. lia. }
    split; [| split].
    + rewrite Heq. rewrite string_app_assoc. reflexivity.
    + rewrite string_app_length. cbn [String.length]. lia.
    + intros acc. rewrite parse_digits_app, Hval. cbn [mbind option_bind].
      rewrite parse_one_digit by exact Hlow. f_equal.
      rewrite string_app_length. cbn [String.length].
      replace (N.of_nat (String.length pre + 1)) with (N.succ (N.of_nat (String.length pre))) by lia.
      rewrite N.pow_succ_r'.
      rewrite N.shiftr_div_pow2. change (2 ^ 4)%N with 16%N.
      change 15%N with (N.ones 4). rewrite N.land_ones. change (2 ^ 4)%N with 16%N.
      pose proof (N.div_mod u 16 ltac:(lia)) as Hdm. lia.
  - apply N.leb_gt in E. exists (String (Hex.digit u) EmptyString).
    split; [reflexivity |]. split; [cbn; lia |]. intros acc.
    rewrite parse_one_digit by exact E. f_equal. cbn [String.length]. lia.
Qed.

Lemma string_app_nil_r (s : string) : s +:+ EmptyString = s.
Proof.
  induction s as [| c s IH]; [reflexivity |].
  rewrite string_app_cons. f_equal. exact IH.
Qed.

Lemma int64_range (z : Z) : (- 2 ^ 63 ≤ Hex.int64 z < 2 ^ 63)%Z.
Proof.
  unfold Hex.int64.
  pose proof (Z.mod_pos_bound (z + 2 ^ 63) (2 ^ 64) ltac:(lia)). lia.
Qed.

(** The digits of a 64-bit magnitude: written in full by sixteen turns. *)
Lemma fmt_digits_64 (u : N) :
  (u ≤ 2 ^ 63)%N →
  (1 ≤ String.length (Hex.fmt_digits 16 u EmptyString) ≤ 16)%nat
  ∧ Hex.fmt_digits 16 u EmptyString ≠ EmptyString
  ∧ Hex.parse_digits 0 (Hex.fmt_digits 16 u EmptyString) = Some u.
Proof.
  intros Hu.
  destruct (fmt_digits_length 15 u EmptyString) as [Hlo Hhi].
  cbn [String.length] in Hlo, Hhi.
  destruct (fmt_digits_parse 15 u EmptyString) as (pre & Heq & Hlen & Hval).
  { change (16 ^ N.of_nat 16)%N with (2 * 2 ^ 63)%N. lia. }
  rewrite string_app_nil_r in Heq.
  split; [lia |]. split.
  - intros E. rewrite E in Hlo. cbn in Hlo. lia.
  - rewrite Heq, Hval. f_equal; lia.
Qed.

Lemma Sprintf_x_length (v : Z) :
  (1 ≤ String.length (Hex.Sprintf_x v) ≤ 17)%nat.
Proof.
  unfold Hex.Sprintf_x.
  destruct (fmt_digits_length 15 (Z.to_N (Z.abs v)) EmptyString) as [Hlo Hhi].
  cbn [String.length] in Hlo, Hhi.
  destruct (v <? 0)%Z; cbn [String.length]; lia.
Qed.

(** The rendering of an int64 reads back as that int64. *)
Lemma Sprintf_x_parse (v : Z) :
  (- 2 ^ 63 ≤ v < 2 ^ 63)%Z → Hex.parse_x (Hex.Sprintf_x v) = Some v.
Proof.
  intros Hv. unfold Hex.Sprintf_x.
  destruct (fmt_digits_64 (Z.to_N (Z.abs v)) ltac:(lia)) as (_ & Hne & Hparse).
  destruct (v <? 0)%Z eqn:E.
  - apply Z.ltb_lt in E. cbn [Hex.parse_x]. rewrite Ascii.eqb_refl.
    destruct (Hex.fmt_digits 16 (Z.to_N (Z.abs v)) EmptyString) as [| c s] eqn:Es;
      [congruence |].
    rewrite Hparse. cbn. f_equal. lia.
  - apply Z.ltb_ge in E.
    destruct (Hex.fmt_digits 16 (Z.to_N (Z.abs v)) EmptyString) as [| c s] eqn:Es;
      [congruence |].
    cbn [Hex.parse_x]. destruct (Ascii.eqb c "-") eqn:Ec.
    + apply Ascii.eqb_eq in Ec. subst c. cbn in Hparse. discriminate.
    + rewrite Hparse. cbn. f_equal. lia.
Qed.

(** ** generateRequestID, path by path *)

Lemma generateRequestID_random (w : World) :
  rand_fails w = false →
  generateRequestID w =
    (Hex.EncodeToString (rand_stream w <$> seq 0 16),
     mkWorld (clock w) (rand_fails w) (λ i, rand_stream w (16 + i)) (events w)).
Proof.
  intros H. unfold generateRequestID, mbind, M_bind, rand_Read. rewrite H. reflexivity.
Qed.

Lemma generateRequestID_fallback (w : World) :
  rand_fails w = true →
  generateRequestID w = (Hex.Sprintf_x (UnixNano (clock w)), w).
Proof.
  intros H. unfold generateRequestID, mbind, M_bind, rand_Read. rewrite H. reflexivity.
Qed.

Lemma generateRequestID_events (w : World) :
  events (generateRequestID w).2 = events w.
Proof.
  destruct (rand_fails w) eqn:E.
  - rewrite generateRequestID_fallback by exact E. reflexivity.
  - rewrite generateRequestID_random by exact E. reflexivity.
Qed.

Lemma generateRequestID_nonempty (w : World) : (generateRequestID w).1 ≠ "".
Proof.
  destruct (rand_fails w) eqn:E.
  - rewrite generateRequestID_fallback by exact E. cbn [fst].
    pose proof (Sprintf_x_length (UnixNano (clock w))) as Hl.
    intros Heq. rewrite Heq in Hl. cbn in Hl. lia.
  - rewrite generateRequestID_random by exact E. cbn [fst].
    pose proof (EncodeToString_length (rand_stream w <$> seq 0 16)) as Hl.
    rewrite length_fmap, length_seq in Hl.
    intros Heq. rewrite Heq in Hl. cbn in Hl. lia.
Qed.





(** ** The metadata carrier *)

Section Carrier.

Variable ToLower : string → string.

Lemma metadataCarrier_Keys_elem (m : metadataCarrier) (k : string) :
  k ∈ metadataCarrier_Keys m ↔ is_Some (MD_entries m !! k).
Proof.
  unfold metadataCarrier_Keys. rewrite app_nil_l, list_elem_of_fmap. split.
  - intros [[k' vs] [-> Hin]]. apply elem_of_map_to_list in Hin. by eexists.
  - intros [vs Hvs]. exists (k, vs). split; [reflexivity |].
    by apply elem_of_map_to_list.
Qed.

Lemma metadataCarrier_Set_allocated (m : gmap string (list string)) (key value : string) :
  metadataCarrier_Set ToLower (MDmap m) key value
  = Some (MDmap (<[ToLower key := [value]]> m)).
Proof. reflexivity. Qed.

Lemma metadataCarrier_Get_lookup (m : metadataCarrier) (key : string) :
  metadataCarrier_Get ToLower m key =
    match MD_entries m !! ToLower key with
    | Some (v :: _) => v
    | Some [] | None => ""
    end.
Proof.
  unfold metadataCarrier_Get, MD_Get.
  destruct (MD_entries m !! ToLower key) as [[| v vs] |]; reflexivity.
Qed.

(** C10: metadataCarrier.Get returns a string for every collection and
    key: the first of the values stored under the key (as the collection
    looks keys up, lower-cased), and the empty string when nothing or an
    empty list is stored there; on the nil collection it is the empty
    string as well. *)
Theorem metadataCarrier_Get_total (m : metadataCarrier) (key : string) :
  metadataCarrier_Get ToLower m key =
    match MD_entries m !! ToLower key with
    | Some (v :: _) => v
    | Some [] | None => ""
    end
  ∧ metadataCarrier_Get ToLower m key = hd "" (MD_Get ToLower m key)
  ∧ metadataCarrier_Get ToLower MDnil key = "".
Proof.
  split; [apply metadataCarrier_Get_lookup | split].
  - unfold metadataCarrier_Get.
    destruct (MD_Get ToLower m key); reflexivity.
  - rewrite metadataCarrier_Get_lookup. cbn [MD_entries].
    rewrite lookup_empty. reflexivity.
Qed.

(** C4: Set followed by Get gives the value back: Set stores the value
    under the lower-cased key (it returns on every allocated collection,
    and only the nil map makes it panic), Get of the same key then
    returns it, and the key is among the keys; Keys lists every key of the
    underlying collection, and lists it once. *)
Theorem metadataCarrier_round_trip (m : metadataCarrier) (key value : string) :
  match metadataCarrier_Set ToLower m key value with
  | Some m' =>
      metadataCarrier_Get ToLower m' key = value
      ∧ MD_entries m' !! ToLower key = Some [value]
      ∧ ToLower key ∈ metadataCarrier_Keys m'
  | None => m = MDnil
  end
  ∧ NoDup (metadataCarrier_Keys m)
  ∧ (∀ k : string, k ∈ metadataCarrier_Keys m ↔ is_Some (MD_entries m !! k))
  ∧ length (metadataCarrier_Keys m) = size (MD_entries m).
Proof.
  split; [| split; [| split]].
  - destruct m as [| m]; [reflexivity |].
    rewrite metadataCarrier_Set_allocated.
    assert (Hl : MD_entries (MDmap (<[ToLower key := [value]]> m)) !! ToLower key
                 = Some [value]) by apply lookup_insert_eq.
    split; [| split].
    + rewrite metadataCarrier_Get_lookup, Hl. reflexivity.
    + exact Hl.
    + apply metadataCarrier_Keys_elem. rewrite Hl. by eexists.
  - unfold metadataCarrier_Keys. rewrite app_nil_l. apply NoDup_fst_map_to_list.
  - apply metadataCarrier_Keys_elem.
  - unfold metadataCarrier_Keys.
    rewrite app_nil_l, length_fmap. apply length_map_to_list.
Qed.

End Carrier.

(** ** Recorded actions *)

Lemma emit_after (e : Event) (w : World) : emit e w = (tt, World_after w [e]).
Proof. reflexivity. Qed.

Lemma World_after_after (w : World) (evs1 evs2 : list Event) :
  World_after (World_after w evs1) evs2 = World_after w (evs1 ++ evs2).
Proof. unfold World_after. cbn. by rewrite <- app_assoc. Qed.

Lemma World_after_nil (w : World) : World_after w [] = w.
Proof. destruct w. unfold World_after. cbn. by rewrite app_nil_r. Qed.

Lemma events_after (w : World) (evs : list Event) :
  events (World_after w evs) = events w ++ evs.
Proof. reflexivity. Qed.

Lemma eqb_empty_false (s : string) : s ≠ "" → String.eqb s "" = false.
Proof. intros H. by apply String.eqb_neq. Qed.

(** ** The interceptors *)

Section InterceptorFacts.

Variable ToLower : string → string.
Variable Any : Type.
Variable propagator_Extract : ∀ C : Type, TextMapCarrier C → Context → C → Context.
Variable propagator_Inject : ∀ C : Type, TextMapCarrier C → Context → C → C.
Variable trace_StartSpan : Context → string → M (Context * Span).

Abbreviation Metrics := (MetricsUnaryInterceptor Any).
Abbreviation Trace := (TraceUnaryInterceptor ToLower Any propagator_Extract trace_StartSpan).
Abbreviation Client :=
  (TraceUnaryClientInterceptor ToLower Any propagator_Inject trace_StartSpan).
Abbreviation started := (trace_started ToLower propagator_Extract trace_StartSpan).
Abbreviation extracted_ctx := (extracted ToLower propagator_Extract).
Abbreviation outbound_ctx := (outbound ToLower propagator_Inject).

Lemma first_header_inbound (ctx : Context) (key : string) :
  first_header ToLower (FromIncomingContext ctx).2 (FromIncomingContext ctx).1 key
  = hd "" (inbound ToLower ctx key).
Proof.
  unfold first_header, FromIncomingContext, inbound.
  destruct (incoming ctx) as [[| m] |]; cbn [fst snd MD_is_nil negb andb].
  - unfold MD_Get. cbn [MD_entries]. rewrite lookup_empty. reflexivity.
  - destruct (MD_Get ToLower (MDmap m) key); reflexivity.
  - reflexivity.
Qed.

Lemma started_run (ctx : Context) (info : UnaryServerInfo) (w : World) :
  started ctx info w =
    let '(ctx1, span, ws) := trace_StartSpan (extracted_ctx ctx) (FullMethod info) w in
    let traceID := derived_traceID ToLower ctx ctx1 in
    let '(requestID, wr) := derived_requestID ToLower ctx ws in
    let ctx3 := handler_ctx ctx1 traceID requestID in
    (mkStarted ctx3 span traceID requestID,
     (log_request_started ctx3 info traceID requestID wr).2).
Proof.
  unfold trace_started, extracted, derived_traceID, derived_requestID, handler_ctx.
  pose proof (first_header_inbound ctx "x-trace-id") as Ht.
  pose proof (first_header_inbound ctx "x-request-id") as Hr.
  destruct (FromIncomingContext ctx) as [md ok]. cbn [fst snd] in Ht, Hr.
  unfold mbind, M_bind.
  destruct (trace_StartSpan _ (FullMethod info) w) as [[ctx1 span] ws].
  rewrite Ht, Hr.
  destruct (String.eqb (hd "" (inbound ToLower ctx "x-request-id")) "").
  - destruct (generateRequestID ws) as [requestID wr].
    destruct (log_request_started _ info _ requestID wr) as [[] w1]. reflexivity.
  - unfold mret, M_ret.
    destruct (log_request_started _ info _ _ ws) as [[] w1]. reflexivity.
Qed.

Abbreviation start_event ctx info traceID :=
  (LoggerInfo (FromContext ctx) "gRPC request started"
     [zap_String "method" (FullMethod info);
      zap_String "trace_id" traceID;
      zap_String "span_id" (trace_SpanIDFromContext ctx)]).

Abbreviation end_event ctx info err :=
  (match err with
   | Some e =>
       LoggerError (FromContext ctx) "gRPC request failed"
         [zap_String "method" (FullMethod info); zap_Error e]
   | None =>
       LoggerInfo (FromContext ctx) "gRPC request completed"
         [zap_String "method" (FullMethod info)]
   end).

Lemma log_request_started_run (ctx : Context) (info : UnaryServerInfo)
    (traceID requestID : string) (w : World) :
  log_request_started ctx info traceID requestID w =
    (tt, World_after w
           (if decide (traceID ≠ "" ∨ requestID ≠ "")
            then [start_event ctx info traceID] else [])).
Proof.
  unfold log_request_started.
  destruct (String.eqb_spec traceID "") as [Ht | Ht];
    destruct (String.eqb_spec requestID "") as [Hr | Hr]; cbn [negb orb];
    case_decide as Hd; try tauto; try (exfalso; apply Hd; tauto);
    unfold mret, M_ret; rewrite ?emit_after, ?World_after_nil; reflexivity.
Qed.

Lemma trace_finished_run (ctx : Context) (span : Span) (info : UnaryServerInfo)
    (err : option error) (w : World) :
  log_TraceIDFromContext ctx ≠ "" ∨ log_RequestIDFromContext ctx ≠ "" →
  trace_finished ctx span info err w =
    (tt, World_after w
           [SpanSetAttributes span
              [("rpc.method", FullMethod info);
               ("rpc.status_code", Code_String (status_Code err))];
            end_event ctx info err;
            SpanEnd span]).
Proof.
  intros Hids. unfold trace_finished, mbind, M_bind.
  assert (Hg : negb (String.eqb (log_TraceIDFromContext ctx) "")
               || negb (String.eqb (log_RequestIDFromContext ctx) "") = true).
  { destruct Hids as [H | H]; rewrite (eqb_empty_false _ H); cbn;
      [reflexivity | apply orb_true_r]. }
  rewrite Hg. destruct err as [e |];
    rewrite !emit_after, !World_after_after; reflexivity.
Qed.

Lemma Trace_run (ctx : Context) (req : Any) (info : UnaryServerInfo)
    (handler : UnaryHandler Any) (w : World) :
  Trace ctx req info handler w =
    let '(st, w1) := started ctx info w in
    let '(resp, err, w2) := handler (st_ctx st) req w1 in
    (resp, err, (trace_finished (st_ctx st) (st_span st) info err w2).2).
Proof.
  unfold TraceUnaryInterceptor, mbind, M_bind.
  destruct (started ctx info w) as [st w1].
  destruct (handler (st_ctx st) req w1) as [[resp err] w2].
  destruct (trace_finished (st_ctx st) (st_span st) info err w2) as [[] w3].
  reflexivity.
Qed.

Lemma derived_requestID_nonempty (ctx : Context) (ws : World) :
  (derived_requestID ToLower ctx ws).1 ≠ "".
Proof.
  unfold derived_requestID.
  destruct (String.eqb_spec (hd "" (inbound ToLower ctx "x-request-id")) "") as [E | E].
  - apply generateRequestID_nonempty.
  - exact E.
Qed.

Lemma derived_requestID_events (ctx : Context) (ws : World) :
  events (derived_requestID ToLower ctx ws).2 = events ws.
Proof.
  unfold derived_requestID.
  destruct (String.eqb (hd "" (inbound ToLower ctx "x-request-id")) "").
  - apply generateRequestID_events.
  - reflexivity.
Qed.

Lemma handler_ctx_requestID (ctx1 : Context) (traceID requestID : string) :
  requestID ≠ "" →
  log_RequestIDFromContext (handler_ctx ctx1 traceID requestID) = requestID.
Proof.
  intros H. unfold handler_ctx. rewrite (eqb_empty_false _ H). reflexivity.
Qed.

Lemma Client_run (ctx : Context) (method : string) (req reply cc : Any)
    (invoker : UnaryInvoker Any) (opts : list Any) (w : World) :
  Client ctx method req reply cc invoker opts w =
    let '(ctx1, span, ws) := trace_StartSpan ctx method w in
    let '(err, w3) :=
      invoker (outbound_ctx ctx1) method req reply cc opts
        (World_after ws
           [SpanSetAttributes span [("rpc.method", method); ("rpc.system", "grpc")]]) in
    (err,
     World_after w3
       (match err with
        | Some e =>
            [SpanSetAttributes span
               [("rpc.status_code", Code_String (status_Code err))];
             SpanRecordError span e]
        | None => [SpanSetAttributes span [("rpc.status_code", "OK")]]
        end ++ [SpanEnd span])).
Proof.
  unfold TraceUnaryClientInterceptor, outbound, mbind, M_bind.
  destruct (trace_StartSpan ctx method w) as [[ctx1 span] ws].
  destruct (FromOutgoingContext ctx1) as [md ok].
  rewrite emit_after.
  destruct (invoker _ method req reply cc opts _) as [[e |] w3];
    rewrite !emit_after, !World_after_after; reflexivity.
Qed.

(** C1: both server interceptors return the pair of response and error
    that the handler returned, whatever the handler, the request and the
    world; the trace interceptor calls the handler on a context and in a
    world that do not depend on the handler. *)
Theorem interceptors_return_handler_result (ctx : Context) (req : Any)
    (info : UnaryServerInfo) (w : World) :
  ∃ (ctx' : Context) (w' : World), ∀ handler : UnaryHandler Any,
    (Metrics ctx req info handler w).1 = (handler ctx req w).1
    ∧ (Trace ctx req info handler w).1 = (handler ctx' req w').1.
Proof.
  exists (st_ctx (started ctx info w).1), (started ctx info w).2.
  intros handler. split.
  - unfold MetricsUnaryInterceptor, mbind, M_bind, time_Now.
    destruct (handler ctx req w) as [[resp err] w1]. reflexivity.
  - rewrite Trace_run. destruct (started ctx info w) as [st w1]. cbn [fst snd].
    destruct (handler (st_ctx st) req w1) as [[resp err] w2]. reflexivity.
Qed.

(** C5: the metrics interceptor returns what the handler returned and
    adds to what the handler recorded exactly one counter increment and
    one duration observation, both labelled with the full method name and
    the status label: OK without an error, the name of the error's status
    code otherwise. *)
Theorem metrics_reported_once (ctx : Context) (req : Any) (info : UnaryServerInfo)
    (handler : UnaryHandler Any) (w : World) :
  let '(resp, err, w1) := handler ctx req w in
  let status :=
    match err with
    | None => "OK"
    | Some _ => Code_String (status_Code err)
    end in
  Metrics ctx req info handler w =
    (resp, err,
     World_after w1
       [CounterInc GRPCRequestTotal [FullMethod info; status];
        HistogramObserve GRPCRequestDuration [FullMethod info; status]
          (clock w1 - clock w)]).
Proof.
  unfold MetricsUnaryInterceptor, mbind, M_bind, time_Now, mret, M_ret.
  destruct (handler ctx req w) as [[resp err] w1].
  rewrite !emit_after, World_after_after. destruct err; reflexivity.
Qed.


(** What the server trace interceptor has recorded and settled when it
    calls the handler. *)
Lemma started_events (ctx : Context) (info : UnaryServerInfo) (w : World) :
  let '(ctx1, span, ws) := trace_StartSpan (extracted_ctx ctx) (FullMethod info) w in
  let '(st, w1) := started ctx info w in
  st_span st = span
  ∧ st_requestID st ≠ ""
  ∧ log_RequestIDFromContext (st_ctx st) = st_requestID st
  ∧ events w1 =
      events ws ++
      (if decide (st_traceID st ≠ "" ∨ st_requestID st ≠ "")
       then [start_event (st_ctx st) info (st_traceID st)] else []).
Proof.
  pose proof (started_run ctx info w) as Hs.
  destruct (trace_StartSpan _ (FullMethod info) w) as [[ctx1 span] ws].
  cbv zeta in Hs.
  pose proof (derived_requestID_nonempty ctx ws) as Hne.
  pose proof (derived_requestID_events ctx ws) as Hev.
  destruct (derived_requestID ToLower ctx ws) as [requestID wr].
  cbn [fst snd] in Hne, Hev.
  rewrite log_request_started_run in Hs. cbn [snd] in Hs. rewrite Hs.
  cbn [st_span st_ctx st_traceID st_requestID].
  split; [reflexivity |]. split; [exact Hne |].
  split; [by apply handler_ctx_requestID |].
  rewrite events_after, Hev. reflexivity.
Qed.

(** C7: the start event is recorded exactly when the trace identifier or
    the request identifier is not empty, in the logging step taken alone
    and in the interceptor; once the handler has returned, the interceptor
    sets the span attributes, records the completion event when the
    handler returned no error and the failure event, carrying the error,
    when it returned one, and ends the span. *)
Theorem trace_events (ctx : Context) (req : Any) (info : UnaryServerInfo)
    (handler : UnaryHandler Any) (w : World) :
  (∀ (c : Context) (traceID requestID : string) (w0 : World),
     events (log_request_started c info traceID requestID w0).2 =
       events w0 ++
       (if decide (traceID ≠ "" ∨ requestID ≠ "")
        then [start_event c info traceID] else []))
  ∧ let '(ctx1, span, ws) :=
      trace_StartSpan (extracted_ctx ctx) (FullMethod info) w in
    let '(st, w1) := started ctx info w in
    events w1 =
      events ws ++
      (if decide (st_traceID st ≠ "" ∨ st_requestID st ≠ "")
       then [start_event (st_ctx st) info (st_traceID st)] else [])
    ∧ let '(resp, err, w2) := handler (st_ctx st) req w1 in
      events (Trace ctx req info handler w).2 =
        events w2 ++
        [SpanSetAttributes span
           [("rpc.method", FullMethod info);
            ("rpc.status_code", Code_String (status_Code err))];
         end_event (st_ctx st) info err;
         SpanEnd span].
Proof.
  split.
  { intros c traceID requestID w0. rewrite log_request_started_run. reflexivity. }
  pose proof (started_events ctx info w) as He.
  pose proof (Trace_run ctx req info handler w) as Ht.
  destruct (trace_StartSpan _ (FullMethod info) w) as [[ctx1 span] ws].
  destruct (started ctx info w) as [st w1].
  destruct He as (Hspan & Hne & Hctx & Hev). split; [exact Hev |].
  destruct (handler (st_ctx st) req w1) as [[resp err] w2].
  rewrite Ht, trace_finished_run, Hspan by (right; congruence).
  reflexivity.
Qed.

(** C9: generateRequestID never returns the empty string; so in every
    call of the server trace interceptor the request identifier is not
    empty, the context handed to the handler carries it, and the start
    event is recorded, once, before the handler runs. *)
Theorem request_id_always_present (ctx : Context) (req : Any)
    (info : UnaryServerInfo) (handler : UnaryHandler Any) (w : World) :
  (∀ w0 : World, (generateRequestID w0).1 ≠ "")
  ∧ let '(ctx1, span, ws) :=
      trace_StartSpan (extracted_ctx ctx) (FullMethod info) w in
    let '(st, w1) := started ctx info w in
    st_requestID st ≠ ""
    ∧ log_RequestIDFromContext (st_ctx st) = st_requestID st
    ∧ events w1 = events ws ++ [start_event (st_ctx st) info (st_traceID st)]
    ∧ (Trace ctx req info handler w).1 = (handler (st_ctx st) req w1).1.
Proof.
  split; [exact generateRequestID_nonempty |].
  pose proof (started_events ctx info w) as He.
  pose proof (Trace_run ctx req info handler w) as Ht.
  destruct (trace_StartSpan _ (FullMethod info) w) as [[ctx1 span] ws].
  destruct (started ctx info w) as [st w1].
  destruct He as (Hspan & Hne & Hctx & Hev).
  split; [exact Hne |]. split; [exact Hctx |]. split.
  - rewrite Hev. case_decide as Hd; [reflexivity |]. exfalso. apply Hd. by right.
  - rewrite Ht. destruct (handler (st_ctx st) req w1) as [[resp err] w2].
    reflexivity.
Qed.

(** C8: the client trace interceptor returns the invoker's error as it
    is; after the invoker it sets the span's status code attribute to the
    name of the error's status code and records the error on the span when
    there is one, sets the attribute to OK when there is none, and ends
    the span. *)
Theorem client_reports_invoker_error (ctx : Context) (method : string)
    (req reply cc : Any) (invoker : UnaryInvoker Any) (opts : list Any)
    (w : World) :
  let '(ctx1, span, ws) := trace_StartSpan ctx method w in
  let w2 :=
    World_after ws
      [SpanSetAttributes span [("rpc.method", method); ("rpc.system", "grpc")]] in
  let '(err, w3) := invoker (outbound_ctx ctx1) method req reply cc opts w2 in
  (Client ctx method req reply cc invoker opts w).1 = err
  ∧ events (Client ctx method req reply cc invoker opts w).2 =
      events w3 ++
      match err with
      | Some e =>
          [SpanSetAttributes span
             [("rpc.status_code", Code_String (status_Code (Some e)))];
           SpanRecordError span e;
           SpanEnd span]
      | None =>
          [SpanSetAttributes span [("rpc.status_code", "OK")];
           SpanEnd span]
      end.
Proof.
  rewrite Client_run.
  destruct (trace_StartSpan ctx method w) as [[ctx1 span] ws]. cbv zeta.
  destruct (invoker _ method req reply cc opts _) as [[e |] w3];
    split; reflexivity.
Qed.

End InterceptorFacts.

(** ** The package's tests, replayed on the embedding *)

Example TestMetadataCarrier_Get :
  metadataCarrier_Get Sample.ToLower Sample.get_test_md "x-test-key" = "test-value"
  ∧ metadataCarrier_Get Sample.ToLower Sample.get_test_md "x-another" = "another-value"
  ∧ metadataCarrier_Get Sample.ToLower Sample.get_test_md "x-not-exist" = ""
  ∧ metadataCarrier_Get Sample.ToLower Sample.get_test_md "x-empty-key" = "".
Proof. repeat split; vm_compute; reflexivity. Qed.

Example TestMetadataCarrier_Set :
  (λ m, metadataCarrier_Get Sample.ToLower m "x-new-key")
    <$> metadataCarrier_Set Sample.ToLower (MDmap ∅) "x-new-key" "new-value"
  = Some "new-value".
Proof. vm_compute. reflexivity. Qed.

Example metadataCarrier_Set_folds_case :
  (λ m, (metadataCarrier_Get Sample.ToLower m "X-New-Key", metadataCarrier_Keys m))
    <$> metadataCarrier_Set Sample.ToLower (MDmap ∅) "X-New-Key" "new-value"
  = Some ("new-value", ["x-new-key"]).
Proof. vm_compute. reflexivity. Qed.

Example metadataCarrier_Set_nil_panics :
  metadataCarrier_Set Sample.ToLower MDnil "x-new-key" "new-value" = None.
Proof. reflexivity. Qed.

Example TestMetadataCarrier_Keys :
  length (metadataCarrier_Keys Sample.keys_test_md) = 3
  ∧ "key1" ∈ metadataCarrier_Keys Sample.keys_test_md
  ∧ "key2" ∈ metadataCarrier_Keys Sample.keys_test_md
  ∧ "key3" ∈ metadataCarrier_Keys Sample.keys_test_md.
Proof.
  repeat split; try (vm_compute; reflexivity);
    apply metadataCarrier_Keys_elem; vm_compute; by eexists.
Qed.

Example TestGenerateRequestID :
  let '(id1, w1) := generateRequestID (Sample.world false) in
  let '(id2, _) := generateRequestID w1 in
  id1 ≠ "" ∧ String.length id1 = 32 ∧ id1 ≠ id2.
Proof. vm_compute. repeat split; discriminate. Qed.

Example TestTraceUnaryInterceptor_HandlerInvocation :
  (Sample.Trace Sample.background "" Sample.info Sample.ok_handler
     (Sample.world false)).1 = ("response", None).
Proof. vm_compute. reflexivity. Qed.

Example TestMetricsUnaryInterceptor_HandlerInvocation :
  (Sample.Metrics Sample.background "" Sample.info Sample.ok_handler
     (Sample.world false)).1 = ("response", None).
Proof. vm_compute. reflexivity. Qed.

Example TestTraceUnaryInterceptor_WithError :
  (Sample.Trace Sample.background "" Sample.info Sample.failing_handler
     (Sample.world false)).1.2 = Some (PlainError "context deadline exceeded").
Proof. vm_compute. reflexivity. Qed.

Example TestMetricsUnaryInterceptor_WithError :
  Sample.Metrics Sample.background "" Sample.info Sample.failing_handler
    (Sample.world false)
  = ("", Some (PlainError "context deadline exceeded"),
     World_after (Sample.world false)
       [CounterInc GRPCRequestTotal ["/test.Service/TestMethod"; "Unknown"];
        HistogramObserve GRPCRequestDuration
          ["/test.Service/TestMethod"; "Unknown"] 0]).
Proof. reflexivity. Qed.

Example trace_with_headers_keeps_identifiers :
  let st := (trace_started Sample.ToLower Sample.Extract Sample.StartSpan
               Sample.with_headers Sample.info (Sample.world true)).1 in
  st_traceID st = "trace-1" ∧ st_requestID st = "req-1".
Proof. vm_compute. split; reflexivity. Qed.

Example client_records_failure :
  events (Sample.Client Sample.background "/svc/M" "" "" "" Sample.failing_invoker []
            (Sample.world false)).2
  = [SpanSetAttributes 0 [("rpc.method", "/svc/M"); ("rpc.system", "grpc")];
     SpanSetAttributes 0 [("rpc.status_code", "Unavailable")];
     SpanRecordError 0 (StatusError 14%N "unavailable");
     SpanEnd 0].
Proof. vm_compute. reflexivity. Qed.

(** ** More on the metadata carrier *)

Section CarrierWrites.

Variable ToLower : string → string.

Abbreviation Get := (metadataCarrier_Get ToLower).
Abbreviation Put := (metadataCarrier_Set ToLower).
Abbreviation carrier := (metadataCarrier_TextMapCarrier ToLower).

Lemma Get_after_insert (m : gmap string (list string)) (key key' value : string) :
  Get (MDmap (<[ToLower key := [value]]> m)) key' =
    if decide (ToLower key' = ToLower key) then value else Get (MDmap m) key'.
Proof.
  rewrite !metadataCarrier_Get_lookup. cbn [MD_entries]. case_decide as E.
  - rewrite E, lookup_insert_eq. reflexivity.
  - rewrite lookup_insert_ne by congruence. reflexivity.
Qed.

(** X1: Set reaches one entry only: afterwards Get answers with the new value
    for every key that lower-cases to the written key, and as before for
    every other key. *)
Theorem metadataCarrier_Set_frame (m : metadataCarrier) (key key' value : string) :
  match Put m key value with
  | Some m' =>
      Get m' key' = if decide (ToLower key' = ToLower key) then value else Get m key'
  | None => m = MDnil
  end.
Proof.
  destruct m as [| m]; [reflexivity |].
  rewrite metadataCarrier_Set_allocated. apply Get_after_insert.
Qed.

(** X2: Set replaces, it does not append: a second Set on the same key (in
    any letter case) leaves the collection as the second Set alone would;
    Sets on keys that lower-case differently commute. *)
Theorem metadataCarrier_Set_overwrites (m : metadataCarrier)
    (k1 k2 v1 v2 : string) :
  Put m k1 v1 ≫= (λ m', Put m' k2 v2) =
    if decide (ToLower k1 = ToLower k2) then Put m k2 v2
    else Put m k2 v2 ≫= (λ m', Put m' k1 v1).
Proof.
  destruct m as [| m]; [case_decide; reflexivity |].
  rewrite !metadataCarrier_Set_allocated. cbn [mbind option_bind].
  rewrite !metadataCarrier_Set_allocated. case_decide as E.
  - rewrite E, insert_insert_eq. reflexivity.
  - rewrite insert_insert_ne by congruence. reflexivity.
Qed.

(** X3: Set adds at most one key: the keys afterwards are, up to order, the
    keys before when the lower-cased key was there, and that key in front
    of them when it was not. *)
Theorem metadataCarrier_Keys_after_Set (m : gmap string (list string))
    (key value : string) :
  ∃ m' : metadataCarrier,
    Put (MDmap m) key value = Some m'
    ∧ metadataCarrier_Keys m' ≡ₚ
        if decide (is_Some (m !! ToLower key))
        then metadataCarrier_Keys (MDmap m)
        else ToLower key :: metadataCarrier_Keys (MDmap m).
Proof.
  eexists. split; [apply metadataCarrier_Set_allocated |].
  unfold metadataCarrier_Keys. cbn [MD_entries]. rewrite !app_nil_l.
  case_decide as E.
  - destruct E as [vs Hvs].
    rewrite <- (insert_delete_eq m (ToLower key) [value]).
    rewrite map_to_list_insert by apply lookup_delete_eq.
    rewrite <- (map_to_list_delete m (ToLower key) vs Hvs). reflexivity.
  - rewrite map_to_list_insert; [reflexivity |].
    destruct (m !! ToLower key) eqn:El; [| reflexivity].
    exfalso. apply E. by eexists.
Qed.

Lemma carrier_write_snoc (c : metadataCarrier) (fields : list (string * string))
    (k v : string) :
  carrier_write carrier c (fields ++ [(k, v)]) =
    carrier_write carrier c fields ≫= λ c', Put c' k v.
Proof. unfold carrier_write. rewrite foldl_app. reflexivity. Qed.

Lemma last_written_snoc (key k v : string) (fields : list (string * string)) :
  last_written ToLower key (fields ++ [(k, v)]) =
    if decide (ToLower k = ToLower key) then Some v
    else last_written ToLower key fields.
Proof.
  unfold last_written. rewrite reverse_snoc. cbn [list_find fst].
  case_decide; [reflexivity |].
  destruct (list_find _ (reverse fields)) as [[i kv] |]; reflexivity.
Qed.

Lemma carrier_write_allocated (m : gmap string (list string))
    (fields : list (string * string)) :
  ∃ m' : gmap string (list string),
    carrier_write carrier (MDmap m) fields = Some (MDmap m')
    ∧ ∀ key : string,
        Get (MDmap m') key = default (Get (MDmap m) key) (last_written ToLower key fields).
Proof.
  induction fields as [| [k v] fields IH] using rev_ind.
  - exists m. split; reflexivity.
  - destruct IH as (m1 & Hw & Hg).
    exists (<[ToLower k := [v]]> m1). split.
    + rewrite carrier_write_snoc, Hw. reflexivity.
    + intros key. rewrite Get_after_insert, last_written_snoc.
      destruct (decide (ToLower key = ToLower k)) as [E | E].
      * rewrite decide_True by congruence. reflexivity.
      * rewrite decide_False by congruence. apply Hg.
Qed.

(** X4: A run of Sets, as a propagator's Inject makes, never panics on an
    allocated collection and leaves it allocated; afterwards Get returns,
    for every key, the last value written under it and, for keys not
    written, what it returned before.  On the nil collection the first Set
    panics. *)
Theorem carrier_write_sequence (m : gmap string (list string))
    (fields : list (string * string)) :
  (∃ m' : gmap string (list string),
     carrier_write carrier (MDmap m) fields = Some (MDmap m')
     ∧ ∀ key : string,
         Get (MDmap m') key =
           default (Get (MDmap m) key) (last_written ToLower key fields))
  ∧ carrier_write carrier MDnil fields = if fields is [] then Some MDnil else None.
Proof.
  split; [apply carrier_write_allocated |].
  destruct fields as [| [k v] fields]; [reflexivity |].
  unfold carrier_write. cbn [foldl]. 
  change (Some MDnil ≫= _) with (@None metadataCarrier).
  induction fields as [| kv fields IH]; [reflexivity | exact IH].
Qed.

End CarrierWrites.

(** ** More on request identifiers *)

Lemma byte_of_nibbles (v : byte) :
  Byte.of_N (16 * N.shiftr (Byte.to_N v) 4 + N.land (Byte.to_N v) 15) = Some v.
Proof.
  rewrite N.shiftr_div_pow2. change 15%N with (N.ones 4). rewrite N.land_ones.
  change (2 ^ 4)%N with 16%N.
  rewrite <- (N.div_mod (Byte.to_N v) 16) by lia. apply Byte.of_to_N.
Qed.

Lemma decode_hex_EncodeToString (src : list byte) :
  decode_hex (Hex.EncodeToString src) = Some src.
Proof.
  induction src as [| v rest IH]; [reflexivity |].
  cbn [Hex.EncodeToString decode_hex].
  rewrite (digit_value_digit _ (high_nibble_bound v)).
  rewrite (digit_value_digit _ (low_nibble_bound v)).
  rewrite IH, byte_of_nibbles. reflexivity.
Qed.

Lemma stream_block_eq (f g : nat → byte) (n : nat) :
  f <$> seq 0 n = g <$> seq 0 n ↔ ∀ i : nat, i < n → f i = g i.
Proof.
  split.
  - intros E i Hi.
    assert (H : (f <$> seq 0 n) !! i = (g <$> seq 0 n) !! i) by (by rewrite E).
    rewrite !list_lookup_fmap, lookup_seq_lt in H by exact Hi.
    cbn in H. congruence.
  - intros E. apply list_fmap_ext. intros i x Hx.
    apply lookup_seq in Hx as [-> Hlt]. apply E. exact Hlt.
Qed.

Lemma random_ids_eq (w w' : World) :
  rand_fails w = false → rand_fails w' = false →
  (generateRequestID w).1 = (generateRequestID w').1
  ↔ ∀ i : nat, i < 16 → rand_stream w i = rand_stream w' i.
Proof.
  intros H H'. rewrite !generateRequestID_random by assumption. cbn [fst].
  rewrite <- stream_block_eq. split; [| by intros ->].
  intros E. apply (f_equal decode_hex) in E.
  rewrite !decode_hex_EncodeToString in E. congruence.
Qed.

(** X5: When the random source delivers, the identifier carries the sixteen
    bytes it was made of: it decodes back to them, so two identifiers are
    equal only when the two blocks of random bytes are. *)
Theorem generateRequestID_keeps_entropy (w w' : World) :
  rand_fails w = false → rand_fails w' = false →
  decode_hex (generateRequestID w).1 = Some (rand_stream w <$> seq 0 16)
  ∧ ((generateRequestID w).1 = (generateRequestID w').1
     ↔ ∀ i : nat, i < 16 → rand_stream w i = rand_stream w' i).
Proof.
  intros H H'. split; [| by apply random_ids_eq].
  rewrite generateRequestID_random by exact H. apply decode_hex_EncodeToString.
Qed.

Lemma generateRequestID_keeps_entropy_witness :
  decode_hex (generateRequestID (Sample.world false)).1
  = Some (rand_stream (Sample.world false) <$> seq 0 16).
Proof.
  exact (proj1 (generateRequestID_keeps_entropy
                  (Sample.world false) (Sample.world false) eq_refl eq_refl)).
Defined.

Lemma successive_ids (w : World) :
  rand_fails w = false →
  let r1 := generateRequestID w in
  let r2 := generateRequestID r1.2 in
  r1.1 = Hex.EncodeToString (rand_stream w <$> seq 0 16)
  ∧ r2.1 = Hex.EncodeToString ((λ i, rand_stream w (16 + i)) <$> seq 0 16)
  ∧ events r2.2 = events w ∧ clock r2.2 = clock w.
Proof.
  intros H. cbv zeta. rewrite (generateRequestID_random w H). cbn [fst snd].
  rewrite generateRequestID_random by exact H. cbn [fst snd].
  repeat split; reflexivity.
Qed.

(** X6: Successive calls draw successive blocks of the random source: the
    second identifier encodes bytes 16 to 31, the calls record nothing and
    leave the clock alone, and the two identifiers coincide only when the
    two blocks do. *)
Theorem generateRequestID_successive (w : World) :
  rand_fails w = false →
  let '(id1, w1) := generateRequestID w in
  let '(id2, w2) := generateRequestID w1 in
  id1 = Hex.EncodeToString (rand_stream w <$> seq 0 16)
  ∧ id2 = Hex.EncodeToString ((λ i, rand_stream w (16 + i)) <$> seq 0 16)
  ∧ events w2 = events w ∧ clock w2 = clock w
  ∧ (id1 = id2 ↔ ∀ i : nat, i < 16 → rand_stream w i = rand_stream w (16 + i)).
Proof.
  intros H. pose proof (successive_ids w H) as Hs. cbv zeta in Hs.
  destruct (generateRequestID w) as [id1 w1]. cbn [fst snd] in Hs.
  destruct (generateRequestID w1) as [id2 w2]. cbn [fst snd] in Hs.
  destruct Hs as (E1 & E2 & He & Hc).
  split; [exact E1 |]. split; [exact E2 |].
  split; [exact He |]. split; [exact Hc |].
  rewrite E1, E2.
  rewrite <- (stream_block_eq (rand_stream w) (λ i, rand_stream w (16 + i)) 16).
  split; [| intros E; rewrite E; reflexivity].
  intros E. apply (f_equal decode_hex) in E.
  rewrite !decode_hex_EncodeToString in E. congruence.
Qed.

Lemma generateRequestID_successive_witness :
  let '(id1, w1) := generateRequestID (Sample.world false) in
  let '(id2, w2) := generateRequestID w1 in
  id1 = "00112233445566778899aabbccddeeff" ∧ events w2 = [].
Proof.
  pose proof (generateRequestID_successive (Sample.world false) eq_refl) as H.
  destruct (generateRequestID (Sample.world false)) as [id1 w1].
  destruct (generateRequestID w1) as [id2 w2].
  destruct H as (-> & _ & He & _). split; [vm_compute; reflexivity | exact He].
Defined.



Lemma fmt_digits_is_hex (fuel : nat) :
  ∀ (u : N) (buf : string), (u < 16 ^ N.of_nat fuel)%N →
    Hex.is_hex buf = true → Hex.is_hex (Hex.fmt_digits fuel u buf) = true.
Proof.
  induction fuel as [| fuel IH]; intros u buf Hu Hb; [exact Hb |].
  rewrite fmt_digits_S. destruct (16 <=? u)%N eqn:E.
  - apply IH.
    + rewrite N.shiftr_div_pow2. change (2 ^ 4)%N with 16%N.
      apply N.Div0.div_lt_upper_bound.
      replace (N.of_nat (S fuel)) with (N.succ (N.of_nat fuel)) in Hu by lia.
      rewrite N.pow_succ_r' in Hu. exact Hu.
    + cbn [Hex.is_hex]. rewrite digit_in_table, Hb; [reflexivity |].
      change 15%N with (N.ones 4). rewrite N.land_ones.
      change (2 ^ 4)%N with 16%N. apply N.mod_lt. lia.
  - apply N.leb_gt in E. cbn [Hex.is_hex].
    rewrite digit_in_table, Hb by exact E. reflexivity.
Qed.

(** A magnitude with exactly [S k] hexadecimal digits is written with
    [S k] characters. *)
Lemma fmt_digits_exact (k : nat) :
  ∀ (fuel : nat) (u : N) (buf : string),
    k ≤ fuel → (u < 16 ^ N.of_nat (S k))%N → k = 0 ∨ (16 ^ N.of_nat k ≤ u)%N →
    String.length (Hex.fmt_digits (S fuel) u buf) = String.length buf + S k.
Proof.
  induction k as [| k IH]; intros fuel u buf Hf Hu Hl; rewrite fmt_digits_S.
  - change (16 ^ N.of_nat 1)%N with 16%N in Hu.
    destruct (16 <=? u)%N eqn:E; [apply N.leb_le in E; lia |].
    cbn [String.length]. lia.
  - destruct Hl as [Hl | Hl]; [lia |].
    replace (N.of_nat (S k)) with (N.succ (N.of_nat k)) in Hl by lia.
    rewrite N.pow_succ_r' in Hl.
    assert (Hp : (1 ≤ 16 ^ N.of_nat k)%N).
    { pose proof (N.pow_nonzero 16 (N.of_nat k) ltac:(lia)). lia. }
    destruct (16 <=? u)%N eqn:E; [| apply N.leb_gt in E; lia].
    destruct fuel as [| fuel]; [lia |].
    rewrite IH.
    + cbn [String.length]. lia.
    + lia.
    + rewrite N.shiftr_div_pow2. change (2 ^ 4)%N with 16%N.
      apply N.Div0.div_lt_upper_bound.
      replace (N.of_nat (S (S k))) with (N.succ (N.of_nat (S k))) in Hu by lia.
      rewrite N.pow_succ_r' in Hu. exact Hu.
    + right. rewrite N.shiftr_div_pow2. change (2 ^ 4)%N with 16%N.
      apply N.div_le_lower_bound; lia.
Qed.



(** ** More on the interceptors *)

Section InterceptorsAtWork.

Variable ToLower : string → string.
Variable Any : Type.
Variable propagator_Extract : ∀ C : Type, TextMapCarrier C → Context → C → Context.
Variable trace_StartSpan : Context → string → M (Context * Span).

Abbreviation Metrics := (MetricsUnaryInterceptor Any).
Abbreviation Trace := (TraceUnaryInterceptor ToLower Any propagator_Extract trace_StartSpan).
Abbreviation started := (trace_started ToLower propagator_Extract trace_StartSpan).
Abbreviation extracted_ctx := (extracted ToLower propagator_Extract).

Abbreviation start_event ctx info traceID :=
  (LoggerInfo (FromContext ctx) "gRPC request started"
     [zap_String "method" (FullMethod info);
      zap_String "trace_id" traceID;
      zap_String "span_id" (trace_SpanIDFromContext ctx)]).

Abbreviation end_event ctx info err :=
  (match err with
   | Some e =>
       LoggerError (FromContext ctx) "gRPC request failed"
         [zap_String "method" (FullMethod info); zap_Error e]
   | None =>
       LoggerInfo (FromContext ctx) "gRPC request completed"
         [zap_String "method" (FullMethod info)]
   end).

Abbreviation status_label err :=
  (match err with
   | None => "OK"
   | Some _ => Code_String (status_Code err)
   end).

Lemma Metrics_run (ctx : Context) (req : Any) (info : UnaryServerInfo)
    (handler : UnaryHandler Any) (w : World) :
  Metrics ctx req info handler w =
    let '(resp, err, w1) := handler ctx req w in
    (resp, err,
     World_after w1
       [CounterInc GRPCRequestTotal [FullMethod info; status_label err];
        HistogramObserve GRPCRequestDuration [FullMethod info; status_label err]
          (clock w1 - clock w)]).
Proof.
  unfold MetricsUnaryInterceptor, mbind, M_bind, time_Now, mret, M_ret.
  destruct (handler ctx req w) as [[resp err] w1].
  rewrite !emit_after, World_after_after. destruct err; reflexivity.
Qed.

Lemma Trace_run_events (ctx : Context) (req : Any) (info : UnaryServerInfo)
    (handler : UnaryHandler Any) (w : World) :
  Trace ctx req info handler w =
    let '(st, w1) := started ctx info w in
    let '(resp, err, w2) := handler (st_ctx st) req w1 in
    (resp, err,
     World_after w2
       [SpanSetAttributes (st_span st)
          [("rpc.method", FullMethod info);
           ("rpc.status_code", Code_String (status_Code err))];
        end_event (st_ctx st) info err;
        SpanEnd (st_span st)]).
Proof.
  rewrite Trace_run.
  pose proof (started_events ToLower propagator_Extract trace_StartSpan ctx info w) as He.
  destruct (trace_StartSpan _ (FullMethod info) w) as [[ctx1 span] ws].
  destruct (started ctx info w) as [st w1].
  destruct He as (_ & Hne & Hctx & _).
  destruct (handler (st_ctx st) req w1) as [[resp err] w2].
  rewrite trace_finished_run by (right; congruence). reflexivity.
Qed.

(** X9: Chained as a server chains them, the two interceptors still return
    what the handler returned, in either order.  With the metrics
    interceptor outside, the counter and the observation come after the
    span has ended and carry the status of the handler's own error; with
    the trace interceptor outside, they come before the span attributes
    and the duration leaves out what the trace interceptor did before the
    handler. *)
Theorem chained_interceptors (ctx : Context) (req : Any) (info : UnaryServerInfo)
    (handler : UnaryHandler Any) (w : World) :
  let '(st, w1) := started ctx info w in
  let '(resp, err, w2) := handler (st_ctx st) req w1 in
  let span_events :=
    [SpanSetAttributes (st_span st)
       [("rpc.method", FullMethod info);
        ("rpc.status_code", Code_String (status_Code err))];
     end_event (st_ctx st) info err;
     SpanEnd (st_span st)] in
  let metric_events (since : World) :=
    [CounterInc GRPCRequestTotal [FullMethod info; status_label err];
     HistogramObserve GRPCRequestDuration [FullMethod info; status_label err]
       (clock w2 - clock since)] in
  chain Metrics Trace ctx req info handler w =
    (resp, err, World_after w2 (span_events ++ metric_events w))
  ∧ chain Trace Metrics ctx req info handler w =
    (resp, err, World_after w2 (metric_events w1 ++ span_events)).
Proof.
  unfold chain. rewrite Metrics_run, !Trace_run_events.
  destruct (started ctx info w) as [st w1].
  rewrite Metrics_run.
  destruct (handler (st_ctx st) req w1) as [[resp err] w2].
  cbv zeta. rewrite !World_after_after. split; reflexivity.
Qed.

Lemma started_world (ctx : Context) (info : UnaryServerInfo) (w : World) :
  let '(ctx1, span, ws) := trace_StartSpan (extracted_ctx ctx) (FullMethod info) w in
  let '(st, w1) := started ctx info w in
  st_ctx st = handler_ctx ctx1 (st_traceID st) (st_requestID st)
  ∧ st_traceID st = derived_traceID ToLower ctx ctx1
  ∧ st_requestID st = (derived_requestID ToLower ctx ws).1
  ∧ w1 = World_after (derived_requestID ToLower ctx ws).2
           [start_event (st_ctx st) info (st_traceID st)].
Proof.
  pose proof (started_run ToLower propagator_Extract trace_StartSpan ctx info w) as Hs.
  destruct (trace_StartSpan _ (FullMethod info) w) as [[ctx1 span] ws].
  cbv zeta in Hs.
  pose proof (derived_requestID_nonempty ToLower ctx ws) as Hne.
  destruct (derived_requestID ToLower ctx ws) as [requestID wr].
  cbn [fst snd] in Hne |- *.
  rewrite (log_request_started_run ToLower trace_StartSpan) in Hs.
  cbn [snd] in Hs. rewrite Hs.
  cbn [st_ctx st_traceID st_requestID].
  rewrite decide_True by (by right). repeat split; reflexivity.
Qed.


(** X11: Without inbound metadata, as on a background context, the propagator
    is not consulted: the span is started on the caller's context, the
    trace identifier is the one of the span context StartSpan returned
    and the request identifier is generated. *)
Theorem trace_without_metadata (ctx : Context) (info : UnaryServerInfo) (w : World) :
  incoming ctx = None →
  extracted_ctx ctx = ctx
  ∧ let '(ctx1, span, ws) := trace_StartSpan ctx (FullMethod info) w in
    let '(st, w1) := started ctx info w in
    st_span st = span
    ∧ st_traceID st = trace_TraceIDFromContext ctx1
    ∧ st_requestID st = (generateRequestID ws).1
    ∧ w1 = World_after (generateRequestID ws).2
             [start_event (st_ctx st) info (st_traceID st)].
Proof.
  intros Hin.
  assert (Hx : extracted_ctx ctx = ctx).
  { unfold extracted, FromIncomingContext. rewrite Hin. reflexivity. }
  split; [exact Hx |].
  pose proof (started_world ctx info w) as Hs.
  pose proof (started_events ToLower propagator_Extract trace_StartSpan ctx info w) as He.
  rewrite Hx in Hs, He.
  destruct (trace_StartSpan ctx (FullMethod info) w) as [[ctx1 span] ws].
  destruct (started ctx info w) as [st w1].
  destruct Hs as (_ & Ht & Hr & Hw). destruct He as (Hspan & _).
  unfold derived_traceID, derived_requestID, inbound in Ht, Hr, Hw.
  rewrite Hin in Ht, Hr, Hw. cbn in Ht, Hr, Hw.
  repeat split; assumption.
Qed.

(** X12: The context handed to the handler is what StartSpan returned with the
    identifiers added and nothing else changed: the request identifier is
    always stored, the trace identifier is stored when it is not empty,
    and an empty one leaves the slot as StartSpan returned it. *)
Theorem trace_handler_context (ctx : Context) (info : UnaryServerInfo) (w : World) :
  let '(ctx1, span, ws) := trace_StartSpan (extracted_ctx ctx) (FullMethod info) w in
  let st := (started ctx info w).1 in
  incoming (st_ctx st) = incoming ctx1
  ∧ outgoing (st_ctx st) = outgoing ctx1
  ∧ trace_TraceIDFromContext (st_ctx st) = trace_TraceIDFromContext ctx1
  ∧ trace_SpanIDFromContext (st_ctx st) = trace_SpanIDFromContext ctx1
  ∧ log_RequestIDFromContext (st_ctx st) = st_requestID st
  ∧ log_TraceIDFromContext (st_ctx st) =
      if decide (st_traceID st = "") then log_TraceIDFromContext ctx1
      else st_traceID st.
Proof.
  pose proof (started_world ctx info w) as Hs.
  pose proof (started_events ToLower propagator_Extract trace_StartSpan ctx info w) as He.
  destruct (trace_StartSpan _ (FullMethod info) w) as [[ctx1 span] ws].
  destruct (started ctx info w) as [st w1]. cbn [fst].
  destruct Hs as (Hc & _). destruct He as (_ & Hne & _).
  rewrite Hc. unfold handler_ctx. rewrite (eqb_empty_false _ Hne). cbn [negb].
  destruct (String.eqb_spec (st_traceID st) ""); case_decide; try contradiction;
    repeat split; reflexivity.
Qed.

End InterceptorsAtWork.

Section ClientAtWork.

Variable ToLower : string → string.
Variable Any : Type.
Variable trace_StartSpan : Context → string → M (Context * Span).

(** What a propagator writes, read off the context. *)
Variable fields : Context → list (string * string).

Abbreviation Client :=
  (TraceUnaryClientInterceptor ToLower Any (inject_fields fields) trace_StartSpan).
Abbreviation Get := (metadataCarrier_Get ToLower).


End ClientAtWork.


Lemma trace_without_metadata_witness :
  let st := (trace_started Sample.ToLower Sample.Extract Sample.StartSpan
               Sample.background Sample.info (Sample.world false)).1 in
  st_traceID st = "" ∧ st_requestID st = "00112233445566778899aabbccddeeff".
Proof.
  pose proof (trace_without_metadata Sample.ToLower Sample.Extract Sample.StartSpan
                Sample.background Sample.info (Sample.world false) eq_refl)
    as [_ H].
  cbv zeta.
  destruct (Sample.StartSpan Sample.background (FullMethod Sample.info)
              (Sample.world false)) as [[ctx1 span] ws] eqn:Es.
  destruct (trace_started _ _ _ _ _ _) as [st w1]. cbn [fst].
  destruct H as (_ & Ht & Hr & _). injection Es as <- <- <-.
  split; [exact Ht | exact Hr].
Defined.
